(** * GTSAM: the quaternion chart and the nonlinear-constraint test suite

    A shallow embedding of
      - gtsam/geometry/Quaternion.h   (MakeQuaternionChart: Expmap, Logmap)
      - cpp/testNonlinearConstraint.cpp (the unary scalar constraint tests)

    Scalars.  The chart works on [double] through sqrt, cos, sin and acos; it
    is embedded over the real numbers [R] (exact arithmetic, M_PI read as PI).
    The constraint tests only add, subtract and multiply small integers and
    compare against decimal tolerances; they are embedded over the canonical
    rationals [Qc], on which every definition evaluates. *)

From Stdlib Require Import Reals Lra Lia QArith Qcanon Qcabs.
From stdpp Require Import gmap strings.

(** ** Eigen primitives used by the chart

    Eigen is the external linear-algebra library Quaternion.h is written
    against; what follows is the behaviour of the Eigen 3 members the chart
    calls, over the reals. *)

Module Eigen.
Local Open Scope R_scope.

(** Eigen::Matrix<double,3,1>, the tangent vector type Omega. *)
Record Vector3 : Type := mkVector3 { vx : R; vy : R; vz : R }.

(** Eigen::Quaternion<double>, built as Quaternion(w, x, y, z). *)
Record Quaternion : Type := mkQuaternion { qw : R; qx : R; qy : R; qz : R }.

(** Eigen::AngleAxis<double>(angle, axis). *)
Record AngleAxis : Type := mkAngleAxis { aa_angle : R; aa_axis : Vector3 }.

(** q.vec(): the three imaginary coefficients. *)
Definition vec (q : Quaternion) : Vector3 := mkVector3 (qx q) (qy q) (qz q).

(** Quaternion::Identity(): w = 1, vec = 0. *)
Definition Identity : Quaternion := mkQuaternion 1 0 0 0.

(** Omega::Zero(). *)
Definition Zero : Vector3 := mkVector3 0 0 0.

(** scalar * vector, coefficient-wise. *)
Definition scale (k : R) (v : Vector3) : Vector3 :=
  mkVector3 (k * vx v) (k * vy v) (k * vz v).

(** vector / scalar, coefficient-wise. *)
Definition divide (v : Vector3) (k : R) : Vector3 :=
  mkVector3 (vx v / k) (vy v / k) (vz v / k).

(** v.squaredNorm(). *)
Definition squaredNorm (v : Vector3) : R :=
  vx v * vx v + vy v * vy v + vz v * vz v.

(** v.norm(): the square root of the squared norm. *)
Definition norm (v : Vector3) : R := sqrt (squaredNorm v).

(** NumTraits<double>::dummy_precision(), the default argument of isZero. *)
Definition dummy_precision : R := 1e-12.

(** internal::isMuchSmallerThan(x, y, prec): abs(x) <= abs(y) * prec. *)
Definition isMuchSmallerThan (x y prec : R) : bool :=
  if Rle_dec (Rabs x) (Rabs y * prec) then true else false.

(** DenseBase::isZero(prec): every coefficient is much smaller than 1. *)
Definition isZero_prec (v : Vector3) (prec : R) : bool :=
  isMuchSmallerThan (vx v) 1 prec
  && isMuchSmallerThan (vy v) 1 prec
  && isMuchSmallerThan (vz v) 1 prec.

(** v.isZero(), as Expmap calls it: the precision is the default one. *)
Definition isZero (v : Vector3) : bool := isZero_prec v dummy_precision.

(** Quaternion(const AngleAxis&): w = cos(angle/2), vec = sin(angle/2) * axis. *)
Definition fromAngleAxis (aa : AngleAxis) : Quaternion :=
  let ha := / 2 * aa_angle aa in
  mkQuaternion (cos ha)
    (sin ha * vx (aa_axis aa)) (sin ha * vy (aa_axis aa)) (sin ha * vz (aa_axis aa)).

(** The antipodal representative -q (all four coefficients negated). *)
Definition negate (q : Quaternion) : Quaternion :=
  mkQuaternion (- qw q) (- qx q) (- qy q) (- qz q).

(** q.conjugate(): the scalar part kept, the vector part negated; for a unit
    quaternion, the inverse rotation. *)
Definition conjugate (q : Quaternion) : Quaternion :=
  mkQuaternion (qw q) (- qx q) (- qy q) (- qz q).

(** q is a unit quaternion. *)
Definition isUnit (q : Quaternion) : Prop :=
  qw q * qw q + qx q * qx q + qy q * qy q + qz q * qz q = 1.

End Eigen.

(** ** gtsam/geometry/Quaternion.h: MakeQuaternionChart *)

Module QuaternionChart.
Import Eigen.
Local Open Scope R_scope.

(** Expmap(angle, axis), line 38. *)
Definition Expmap_angle_axis (angle : R) (axis : Vector3) : Quaternion :=
  fromAngleAxis (mkAngleAxis angle axis).

(** Expmap(omega), lines 43-50. *)
Definition Expmap (omega : Vector3) : Quaternion :=
  if isZero omega then Identity
  else
    let angle := norm omega in
    fromAngleAxis (mkAngleAxis angle (divide omega angle)).

(** twoPi = 2.0 * M_PI, line 56. *)
Definition twoPi : R := 2 * PI.

(** NearlyOne = 1.0 - 1e-10, line 58. *)
Definition NearlyOne : R := 1 - 1e-10.

(** NearlyNegativeOne = -1.0 + 1e-10, line 58. *)
Definition NearlyNegativeOne : R := -1 + 1e-10.

(** Lines 71-74: the two-sided correction of the angle. *)
Definition wrap_angle (angle : R) : R :=
  if Rgt_dec angle PI then angle - twoPi
  else if Rlt_dec angle (- PI) then angle + twoPi
  else angle.

(** The three regimes Logmap distinguishes on q.w(). *)
Inductive Regime : Type := NearIdentity | NearAntipodal | General.

(** The regime of a scalar part, by the two tests of lines 61 and 64. *)
Definition regime (w : R) : Regime :=
  if Rgt_dec w NearlyOne then NearIdentity
  else if Rlt_dec w NearlyNegativeOne then NearAntipodal
  else General.

(** Logmap(q), lines 53-77. *)
Definition Logmap (q : Quaternion) : Vector3 :=
  let w := qw q in
  if Rgt_dec w NearlyOne then
    scale (2 - 2 * (w - 1) / 3) (vec q)
  else if Rlt_dec w NearlyNegativeOne then
    Zero
  else
    let angle := 2 * acos w in
    let s := sqrt (1 - w * w) in
    let angle := wrap_angle angle in
    scale (angle / s) (vec q).

End QuaternionChart.

Import Eigen QuaternionChart.



(** Componentwise closeness of quaternions. *)
Definition qclose_to (tol : R) (p q : Quaternion) : Prop :=
  (Rabs (qw p - qw q) <= tol /\ Rabs (qx p - qx q) <= tol /\
   Rabs (qy p - qy q) <= tol /\ Rabs (qz p - qz q) <= tol)%R.

(** ** Vectors, matrices, configurations and linear factors

    Vector.h, Matrix.h, VectorConfig.h and GaussianFactor.h are not in this
    source tree; the test file only calls them. *)

Module LinearAlgebra.
Local Open Scope Qc_scope.

(** Modelled from the spec: Vector and Matrix (Vector.h and Matrix.h are
    missing), the dense vectors and matrices; a matrix is the list of its
    rows. *)
Abbreviation Vector := (list Qc).
Abbreviation Matrix := (list (list Qc)).

(** Modelled from the spec: VectorConfig (VectorConfig.h is missing), "a
    mapping from variable key (string identifier) to a vector-valued
    assignment", keys unique; a missing key is a lookup failure ([None]). *)
Abbreviation VectorConfig := (gmap string (list Qc)).

(** Modelled from the spec: Vector_(n, ...) of Vector.h (missing), the vector
    of the n values that follow. *)
Definition Vector_ (n : nat) (vals : list Qc) : Vector := take n vals.

(** Modelled from the spec: Matrix_(m, n, ...) of Matrix.h (missing), the
    m-by-n matrix of the values that follow, row by row. *)
Fixpoint Matrix_ (m n : nat) (vals : list Qc) : Matrix :=
  match m with
  | O => []
  | S m' => take n vals :: Matrix_ m' n (drop n vals)
  end.

(** Modelled from the spec: zero(n) of Vector.h (missing), the zero vector of
    length n. *)
Definition zero (n : nat) : Vector := replicate n (Q2Qc 0).

(** Modelled from the spec: eye(n) of Matrix.h (missing), the n-by-n identity
    matrix. *)
Definition eye (n : nat) : Matrix :=
  map (fun i => map (fun j => if Nat.eqb i j then Q2Qc 1 else Q2Qc 0) (seq 0 n))
      (seq 0 n).

(** Modelled from the spec: "equality comparison with tolerance" of the
    scalar primitives (missing): fabs(a - b) <= tol. *)
Definition close (a b tol : Qc) : bool := bool_decide (Qcabs (a - b) <= tol).

(** Modelled from the spec: equal_with_abs_tol on vectors (Vector.h is
    missing): the same length, and every pair of entries close. *)
Fixpoint equal_with_abs_tol (v1 v2 : Vector) (tol : Qc) : bool :=
  match v1, v2 with
  | [], [] => true
  | a :: v1', b :: v2' => close a b tol && equal_with_abs_tol v1' v2' tol
  | _, _ => false
  end.

(** Modelled from the spec: equal_with_abs_tol on matrices (Matrix.h is
    missing): the same shape, and every pair of rows equal within tol. *)
Fixpoint equal_with_abs_tol_M (A B : Matrix) (tol : Qc) : bool :=
  match A, B with
  | [], [] => true
  | r :: A', s :: B' =>
      equal_with_abs_tol r s tol && equal_with_abs_tol_M A' B' tol
  | _, _ => false
  end.

(** Modelled from the spec: vector_scale of Matrix.h (missing), the Jacobian
    "scaled by the multiplier": row i of the p-by-n block times the i-th
    multiplier. *)
Definition vector_scale (A : Matrix) (v : Vector) : Matrix :=
  zip_with (fun row k => map (Qcmult k) row) A v.

(** Modelled from the spec: GaussianFactor (GaussianFactor.h is missing), "a
    linear-factor representation ... (matrix blocks keyed by variable,
    right-hand side, and a noise/precision model distinguishing soft cost rows
    from hard equality rows)". *)
Record GaussianFactor : Type := mkGaussianFactor {
  As_ : gmap string Matrix;
  b_ : Vector;
  sigma_ : Qc }.

(** Modelled from the spec: the unary constructor the test calls,
    GaussianFactor(key1, A1, b, sigma) (missing). *)
Definition GaussianFactor1 (key1 : string) (A1 : Matrix) (b : Vector)
    (sigma : Qc) : GaussianFactor :=
  mkGaussianFactor (<[key1 := A1]> ∅) b sigma.

(** Modelled from the spec: the binary constructor the test calls,
    GaussianFactor(key1, A1, key2, A2, b, sigma) (missing). *)
Definition GaussianFactor2 (key1 : string) (A1 : Matrix) (key2 : string)
    (A2 : Matrix) (b : Vector) (sigma : Qc) : GaussianFactor :=
  mkGaussianFactor (<[key2 := A2]> (<[key1 := A1]> ∅)) b sigma.

(** Modelled from the spec: the comparison of the blocks of two factors
    (GaussianFactor::equals is missing): the same keys, and under each key
    matrices equal within tol. *)
Definition blocks_equal (m1 m2 : gmap string Matrix) (tol : Qc) : bool :=
  bool_decide (dom m1 = dom m2)
  && forallb (fun kA => match m2 !! kA.1 with
                        | Some B => equal_with_abs_tol_M kA.2 B tol
                        | None => false
                        end) (map_to_list m1).

(** Modelled from the spec: GaussianFactor::equals(other, tol) (missing), what
    assert_equal calls on two factors: blocks, right-hand side and sigma equal
    within tol. *)
Definition GaussianFactor_equals (f1 f2 : GaussianFactor) (tol : Qc) : bool :=
  blocks_equal (As_ f1) (As_ f2) tol
  && equal_with_abs_tol (b_ f1) (b_ f2) tol
  && close (sigma_ f1) (sigma_ f2) tol.

(** Modelled from the spec: the default tolerance of assert_equal and equals
    (their declarations are missing), 1e-9. *)
Definition default_tol : Qc := Q2Qc 1e-9.

End LinearAlgebra.

(** ** The constraint factor

    NonlinearConstraint.h and NonlinearConstraint-inl.h are not in this source
    tree either. *)

Module NonlinearConstraint.
Import LinearAlgebra.
Local Open Scope Qc_scope.

(** Modelled from the spec: NonlinearConstraint1<VectorConfig> (missing), the
    arity-1 constraint factor: one primal key, the gradient and constraint
    functions, the dimension p and the multiplier key, in the order of the
    constructor call ("x", grad_g, g_func, p, "L_x1"). *)
Record NonlinearConstraint1 : Type := mkNonlinearConstraint1 {
  key_ : string;
  gradG_ : VectorConfig -> string -> option Matrix;
  g_ : VectorConfig -> string -> option Vector;
  p_ : nat;
  lagrange_key_ : string }.

(** Modelled from the spec: the primal keys a factor references, in order
    (one key for the arity-1 factor). *)
Definition keys (c : NonlinearConstraint1) : list string := [key_ c].

(** Modelled from the spec: error_vector(config) (missing) "evaluates g at the
    values bound to this factor's keys in config". *)
Definition error_vector (c : NonlinearConstraint1) (config : VectorConfig)
    : option Vector :=
  g_ c config (key_ c).

(** Modelled from the spec: linearize(primalConfig, multiplierConfig)
    (missing), steps 1 to 5 of the spec: read the multiplier, evaluate g and
    the Jacobian, refuse a multiplier or a Jacobian whose size is not p, build
    the cost factor (Jacobian scaled by the multiplier on the primal key,
    identity on the multiplier key, zero right-hand side, sigma 1) and the
    constraint factor (raw Jacobian, sigma 0).  The right-hand side of the
    constraint factor is the residual g itself: that is what
    cpp/testNonlinearConstraint.cpp expects (expConstraint, Vector_(1,-4.0),
    line 71), where the spec words it as the negated residual. *)
Definition linearize (c : NonlinearConstraint1) (config lagrange : VectorConfig)
    : option (GaussianFactor * GaussianFactor) :=
  lambda ← lagrange !! lagrange_key_ c;
  g ← g_ c config (key_ c);
  grad ← gradG_ c config (key_ c);
  if bool_decide (length lambda = p_ c) && bool_decide (length grad = p_ c)
  then
    let A1 := vector_scale grad lambda in
    let factor :=
      GaussianFactor2 (key_ c) A1 (lagrange_key_ c) (eye (p_ c)) (zero (p_ c))
        (Q2Qc 1) in
    let constraint := GaussianFactor1 (key_ c) grad g (Q2Qc 0) in
    Some (factor, constraint)
  else None.

(** Modelled from the spec: equals(other, tol) (missing): "two Constraint
    Factors are equal iff they reference identical primal keys in the same
    order, the same constraint dimension, and the same multiplier key";
    the functions are not compared. *)
Definition equals (c1 c2 : NonlinearConstraint1) (tol : Qc) : bool :=
  bool_decide (keys c1 = keys c2)
  && bool_decide (p_ c1 = p_ c2)
  && bool_decide (lagrange_key_ c1 = lagrange_key_ c2).

End NonlinearConstraint.

(** ** cpp/testNonlinearConstraint.cpp *)

Module test1.
Import LinearAlgebra.
Local Open Scope Qc_scope.

(** p = 1, gradG(x) = 2x (lines 19-22). *)
Definition grad_g (config : VectorConfig) (key : string) : option Matrix :=
  v ← config !! key;
  x ← v !! 0%nat;
  Some (Matrix_ 1 1 [Q2Qc 2 * x]).

(** p = 1, g(x) = x^2-5 = 0 (lines 25-28). *)
Definition g_func (config : VectorConfig) (key : string) : option Vector :=
  v ← config !! key;
  x ← v !! 0%nat;
  Some (Vector_ 1 [x * x - Q2Qc 5]).

End test1.

Module Tests.
Import LinearAlgebra NonlinearConstraint.
Local Open Scope Qc_scope.

(** TEST(NonlinearConstraint, unary_scalar_construction), lines 32-47. *)
Module unary_scalar_construction.
Definition p : nat := 1.
Definition c1 : NonlinearConstraint1 :=
  mkNonlinearConstraint1 "x" test1.grad_g test1.g_func p "L_x1".
Definition config : VectorConfig := <["x" := Vector_ 1 [Q2Qc 1]]> ∅.
Definition actual : option Vector := error_vector c1 config.
Definition expected : Vector := Vector_ 1 [Q2Qc (-4)].
Definition CHECK : bool :=
  match actual with
  | Some a => equal_with_abs_tol a expected (Q2Qc 1e-5)
  | None => false
  end.
End unary_scalar_construction.

(** TEST(NonlinearConstraint, unary_scalar_linearize), lines 50-74. *)
Module unary_scalar_linearize.
Definition p : nat := 1.
Definition c1 : NonlinearConstraint1 :=
  mkNonlinearConstraint1 "x" test1.grad_g test1.g_func p "L_x1".
Definition realconfig : VectorConfig := <["x" := Vector_ 1 [Q2Qc 1]]> ∅.
Definition lagrangeConfig : VectorConfig := <["L_x1" := Vector_ 1 [Q2Qc 3]]> ∅.
Definition act : option (GaussianFactor * GaussianFactor) :=
  linearize c1 realconfig lagrangeConfig.
Definition expFactor : GaussianFactor :=
  GaussianFactor2 "x" (Matrix_ 1 1 [Q2Qc 6]) "L_x1" (eye 1) (zero 1) (Q2Qc 1).
Definition expConstraint : GaussianFactor :=
  GaussianFactor1 "x" (Matrix_ 1 1 [Q2Qc 2]) (Vector_ 1 [Q2Qc (-4)]) (Q2Qc 0).
Definition CHECK_factor (actFactor : GaussianFactor) : bool :=
  GaussianFactor_equals actFactor expFactor default_tol.
Definition CHECK_constraint (actConstraint : GaussianFactor) : bool :=
  GaussianFactor_equals actConstraint expConstraint default_tol.
Definition CHECK : bool :=
  match act with
  | Some (actFactor, actConstraint) =>
      CHECK_factor actFactor && CHECK_constraint actConstraint
  | None => false
  end.
End unary_scalar_linearize.

(** TEST(NonlinearConstraint, unary_scalar_equal), lines 77-88. *)
Module unary_scalar_equal.
Definition c1 : NonlinearConstraint1 :=
  mkNonlinearConstraint1 "x" test1.grad_g test1.g_func 1 "L_x1".
Definition c2 : NonlinearConstraint1 :=
  mkNonlinearConstraint1 "x" test1.grad_g test1.g_func 1 "L_x1".
Definition c3 : NonlinearConstraint1 :=
  mkNonlinearConstraint1 "x" test1.grad_g test1.g_func 2 "L_x1".
Definition c4 : NonlinearConstraint1 :=
  mkNonlinearConstraint1 "y" test1.grad_g test1.g_func 1 "L_x1".
Definition CHECK : bool :=
  equals c1 c2 default_tol && equals c2 c1 default_tol
  && negb (equals c1 c3 default_tol) && negb (equals c1 c4 default_tol).
End unary_scalar_equal.

End Tests.

Import LinearAlgebra NonlinearConstraint.

Section ChartBasics.
Local Open Scope R_scope.

Lemma isZero_Zero : isZero Zero = true.
Proof.
  unfold isZero, isZero_prec, isMuchSmallerThan, dummy_precision; simpl.
  rewrite Rabs_R0, Rabs_R1.
  destruct (Rle_dec 0 (1 * 1e-12)) as [_|n]; [reflexivity | exfalso; apply n; lra].
Qed.

(** C7: Expmap of the zero tangent vector takes the isZero branch and is the
    identity quaternion (1,0,0,0), with no sine or cosine evaluated. *)
Theorem Expmap_zero_is_identity :
  isZero Zero = true /\ Expmap Zero = Identity /\
  Expmap Zero = mkQuaternion 1 0 0 0.
Proof.
  split; [apply isZero_Zero|].
  unfold Expmap. rewrite isZero_Zero. split; reflexivity.
Qed.

End ChartBasics.

Section LogmapBranches.
Local Open Scope R_scope.

Lemma NearlyNegativeOne_lt_NearlyOne : NearlyNegativeOne < NearlyOne.
Proof. unfold NearlyNegativeOne, NearlyOne; lra. Qed.

Lemma Logmap_antipodal_branch (w x y z : R) :
  w < NearlyNegativeOne -> Logmap (mkQuaternion w x y z) = Zero.
Proof.
  intros Hw. unfold Logmap; simpl.
  destruct (Rgt_dec w NearlyOne) as [Hgt|_].
  - pose proof NearlyNegativeOne_lt_NearlyOne. lra.
  - destruct (Rlt_dec w NearlyNegativeOne) as [_|Hn]; [reflexivity | contradiction].
Qed.

(** C8: below the near-antipodal threshold Logmap is the zero vector, whatever
    the vector part of the quaternion is. *)
Theorem Logmap_near_antipodal_zero (q : Quaternion) :
  qw q < NearlyNegativeOne -> Logmap q = Zero.
Proof.
  destruct q as [w x y z]; simpl. apply Logmap_antipodal_branch.
Qed.

Lemma Logmap_near_antipodal_zero_witness :
  qw (mkQuaternion (-1) 3 (-4) 12) < NearlyNegativeOne /\
  Logmap (mkQuaternion (-1) 3 (-4) 12) = Zero.
Proof.
  assert (H : qw (mkQuaternion (-1) 3 (-4) 12) < NearlyNegativeOne)
    by (unfold NearlyNegativeOne; simpl; lra).
  split; [exact H | exact (Logmap_near_antipodal_zero _ H)].
Defined.

Lemma regime_NearIdentity (w : R) : regime w = NearIdentity <-> w > NearlyOne.
Proof.
  unfold regime. destruct (Rgt_dec w NearlyOne); [tauto|].
  destruct (Rlt_dec w NearlyNegativeOne); split; intros; try discriminate; contradiction.
Qed.

Lemma regime_NearAntipodal (w : R) :
  regime w = NearAntipodal <-> w < NearlyNegativeOne.
Proof.
  pose proof NearlyNegativeOne_lt_NearlyOne.
  unfold regime. destruct (Rgt_dec w NearlyOne).
  - split; intros; [discriminate | lra].
  - destruct (Rlt_dec w NearlyNegativeOne); split; intros;
      try discriminate; try reflexivity; try assumption; contradiction.
Qed.

Lemma regime_General (w : R) :
  regime w = General <-> NearlyNegativeOne <= w <= NearlyOne.
Proof.
  unfold regime. destruct (Rgt_dec w NearlyOne).
  - split; intros; [discriminate | lra].
  - destruct (Rlt_dec w NearlyNegativeOne); split; intros;
      try discriminate; try reflexivity; lra.
Qed.

Lemma general_divisor_positive (w : R) :
  NearlyNegativeOne <= w <= NearlyOne -> 0 < sqrt (1 - w * w).
Proof.
  unfold NearlyNegativeOne, NearlyOne. intros [Hl Hu].
  apply sqrt_lt_R0. nra.
Qed.

(** C9: Logmap is total.  Every scalar part falls in exactly one regime; the
    boundary values +1 and -1 belong to the Taylor branch and to the
    zero-vector branch; in the general branch the scalar part is strictly
    between -1 and 1 (acos is defined) and the divisor sqrt(1 - w*w) is
    strictly positive. *)
Theorem Logmap_total_three_regimes :
  (forall q : Quaternion,
     let w := qw q in
     (regime w = NearIdentity /\ w > NearlyOne /\ ~ w < NearlyNegativeOne /\
      Logmap q = scale (2 - 2 * (w - 1) / 3) (vec q))
     \/ (regime w = NearAntipodal /\ ~ w > NearlyOne /\ w < NearlyNegativeOne /\
         Logmap q = Zero)
     \/ (regime w = General /\ ~ w > NearlyOne /\ ~ w < NearlyNegativeOne /\
         -1 < w < 1 /\ 0 < sqrt (1 - w * w) /\
         Logmap q = scale (wrap_angle (2 * acos w) / sqrt (1 - w * w)) (vec q)))
  /\ (forall x y z : R,
        regime 1 = NearIdentity /\
        Logmap (mkQuaternion 1 x y z) = scale 2 (mkVector3 x y z))
  /\ (forall x y z : R,
        regime (-1) = NearAntipodal /\
        Logmap (mkQuaternion (-1) x y z) = Zero).
Proof.
  pose proof NearlyNegativeOne_lt_NearlyOne as Hlt.
  split; [|split].
  - intros q w. unfold regime, Logmap. fold w.
    destruct (Rgt_dec w NearlyOne) as [Hgt|Hngt].
    + left. repeat split; try assumption. lra.
    + destruct (Rlt_dec w NearlyNegativeOne) as [Hl|Hnl].
      * right; left. repeat split; assumption.
      * right; right. unfold NearlyOne, NearlyNegativeOne in *.
        repeat split; try assumption; try lra.
        apply sqrt_lt_R0. nra.
  - intros x y z. unfold regime, Logmap; simpl.
    destruct (Rgt_dec 1 NearlyOne) as [_|Hn].
    + split; [reflexivity|]. unfold scale, vec; simpl. f_equal; lra.
    + exfalso; apply Hn; unfold NearlyOne; lra.
  - intros x y z. unfold regime, Logmap; simpl.
    destruct (Rgt_dec (-1) NearlyOne) as [Hgt|_].
    + exfalso; unfold NearlyOne in Hgt; lra.
    + destruct (Rlt_dec (-1) NearlyNegativeOne) as [_|Hn]; [split; reflexivity|].
      exfalso; apply Hn; unfold NearlyNegativeOne; lra.
Qed.

Lemma wrap_angle_acos_range (w : R) :
  0 <= 2 * acos w <= 2 * PI /\
  ~ 2 * acos w < - PI /\
  wrap_angle (2 * acos w)
    = (if Rgt_dec (2 * acos w) PI then 2 * acos w - twoPi else 2 * acos w) /\
  - PI < wrap_angle (2 * acos w) <= PI.
Proof.
  pose proof (acos_bound w) as [H0 H1]. pose proof PI_RGT_0 as Hpi.
  split; [lra|]. split; [lra|].
  unfold wrap_angle, twoPi.
  destruct (Rgt_dec (2 * acos w) PI) as [Hgt|Hngt].
  - split; [reflexivity | lra].
  - destruct (Rlt_dec (2 * acos w) (- PI)) as [Hl|_]; [lra|].
    split; [reflexivity | lra].
Qed.

(** C10: in the general branch of Logmap the angle 2*acos(w) lies in
    [0, 2*pi]; the test angle < -pi never holds, so the branch adding 2*pi is
    dead; only the subtraction of 2*pi can fire, and the corrected angle, the
    one Logmap divides by s, lies in (-pi, pi]. *)
Theorem Logmap_angle_correction_range (q : Quaternion) :
  regime (qw q) = General ->
  let angle := 2 * acos (qw q) in
  0 <= angle <= 2 * PI /\
  ~ angle < - PI /\
  wrap_angle angle = (if Rgt_dec angle PI then angle - twoPi else angle) /\
  - PI < wrap_angle angle <= PI /\
  Logmap q = scale (wrap_angle angle / sqrt (1 - qw q * qw q)) (vec q).
Proof.
  intros Hr angle. apply regime_General in Hr.
  destruct (wrap_angle_acos_range (qw q)) as (H1 & H2 & H3 & H4).
  repeat split; try assumption; try apply H1; try apply H4.
  unfold Logmap.
  destruct (Rgt_dec (qw q) NearlyOne); [lra|].
  destruct (Rlt_dec (qw q) NearlyNegativeOne); [lra|]. reflexivity.
Qed.

Lemma Logmap_angle_correction_range_witness :
  regime (qw (mkQuaternion (-1 / 2) (1 / 2) (1 / 2) (1 / 2))) = General /\
  - PI < wrap_angle (2 * acos (-1 / 2)) <= PI.
Proof.
  assert (Hr : regime (qw (mkQuaternion (-1 / 2) (1 / 2) (1 / 2) (1 / 2))) = General).
  { apply regime_General. unfold NearlyNegativeOne, NearlyOne; simpl. lra. }
  split; [exact Hr|].
  exact (proj1 (proj2 (proj2 (proj2
    (Logmap_angle_correction_range _ Hr))))).
Defined.

End LogmapBranches.

(** ** Real-analysis facts used by the round trips *)

Section Analysis.
Local Open Scope R_scope.

Lemma sin_taylor_bounds (a : R) :
  0 <= a <= 4 -> a - a^3/6 <= sin a <= a - a^3/6 + a^5/120.
Proof.
  intros [H0 H4].
  pose proof (pre_sin_bound a 0 H0 H4) as [Hl Hu].
  unfold sin_approx, sin_term in Hl, Hu. simpl in Hl, Hu.
  split; lra.
Qed.

Lemma cos_taylor_bounds (a : R) :
  -2 <= a <= 2 -> 1 - a^2/2 <= cos a <= 1 - a^2/2 + a^4/24.
Proof.
  intros [H0 H4].
  pose proof (pre_cos_bound a 0 H0 H4) as [Hl Hu].
  unfold cos_approx, cos_term in Hl, Hu. simpl in Hl, Hu.
  split; lra.
Qed.

Lemma PI_gt_3 : 3 < PI.
Proof. pose proof PI2_3_2. lra. Qed.



Lemma sqrt_1_minus_sqr_sin (a : R) :
  0 <= a <= PI -> sqrt (1 - cos a * cos a) = sin a.
Proof.
  intros [H0 H1].
  pose proof (sin2_cos2 a) as E. unfold Rsqr in E.
  replace (1 - cos a * cos a) with (sin a * sin a) by lra.
  apply sqrt_square. apply sin_ge_0; assumption.
Qed.

Lemma sqrt_1_minus_sqr_acos (w : R) :
  -1 <= w <= 1 -> sin (acos w) = sqrt (1 - w * w).
Proof.
  intros Hw. rewrite sin_acos by exact Hw. unfold Rsqr. reflexivity.
Qed.

End Analysis.

(** ** Facts about the Eigen primitives *)

Section VectorFacts.
Local Open Scope R_scope.

Lemma squaredNorm_nonneg (v : Vector3) : 0 <= squaredNorm v.
Proof. unfold squaredNorm. nra. Qed.

Lemma norm_nonneg (v : Vector3) : 0 <= norm v.
Proof. apply sqrt_pos. Qed.

Lemma norm_sqr (v : Vector3) : norm v * norm v = squaredNorm v.
Proof. apply sqrt_sqrt, squaredNorm_nonneg. Qed.

Lemma sqrt_sqr_abs (k : R) : sqrt (k * k) = Rabs k.
Proof. exact (sqrt_Rsqr_abs k). Qed.

Lemma norm_scale (k : R) (v : Vector3) : norm (scale k v) = Rabs k * norm v.
Proof.
  unfold norm. rewrite <- sqrt_sqr_abs.
  rewrite <- sqrt_mult; [| nra | apply squaredNorm_nonneg].
  f_equal. unfold squaredNorm, scale; simpl. ring.
Qed.

Lemma Rabs_le_sqrt (a t : R) : a * a <= t -> Rabs a <= sqrt t.
Proof.
  intros H. rewrite <- sqrt_sqr_abs. apply sqrt_le_1; [nra | nra | exact H].
Qed.

Lemma coords_le_norm (v : Vector3) :
  Rabs (vx v) <= norm v /\ Rabs (vy v) <= norm v /\ Rabs (vz v) <= norm v.
Proof.
  unfold norm, squaredNorm. repeat split; apply Rabs_le_sqrt; nra.
Qed.

Lemma isMuchSmallerThan_one (x prec : R) :
  isMuchSmallerThan x 1 prec = true <-> Rabs x <= prec.
Proof.
  unfold isMuchSmallerThan. rewrite Rabs_R1, Rmult_1_l.
  destruct (Rle_dec (Rabs x) prec); split; intros; try assumption;
    try reflexivity; try discriminate; contradiction.
Qed.

Lemma isZero_true_iff (v : Vector3) :
  isZero v = true <->
  Rabs (vx v) <= 1e-12 /\ Rabs (vy v) <= 1e-12 /\ Rabs (vz v) <= 1e-12.
Proof.
  unfold isZero, isZero_prec, dummy_precision.
  rewrite !andb_true_iff, !isMuchSmallerThan_one. tauto.
Qed.

Lemma isZero_false_coord (v : Vector3) :
  isZero v = false ->
  1e-12 < Rabs (vx v) \/ 1e-12 < Rabs (vy v) \/ 1e-12 < Rabs (vz v).
Proof.
  intros H.
  destruct (Rle_dec (Rabs (vx v)) 1e-12) as [Hx|Hx]; [|left; lra].
  destruct (Rle_dec (Rabs (vy v)) 1e-12) as [Hy|Hy]; [|right; left; lra].
  destruct (Rle_dec (Rabs (vz v)) 1e-12) as [Hz|Hz]; [|right; right; lra].
  assert (isZero v = true) by (apply isZero_true_iff; auto).
  congruence.
Qed.

Lemma isZero_false_norm_pos (v : Vector3) : isZero v = false -> 0 < norm v.
Proof.
  intros H. pose proof (coords_le_norm v) as (Hx & Hy & Hz).
  destruct (isZero_false_coord v H) as [K|[K|K]]; lra.
Qed.

Lemma Vector3_eq (a b : Vector3) :
  vx a = vx b -> vy a = vy b -> vz a = vz b -> a = b.
Proof. destruct a, b; simpl; intros; subst; reflexivity. Qed.

Lemma Quaternion_eq (p q : Quaternion) :
  qw p = qw q -> qx p = qx q -> qy p = qy q -> qz p = qz q -> p = q.
Proof. destruct p, q; simpl; intros; subst; reflexivity. Qed.

Lemma Expmap_isZero (v : Vector3) : isZero v = true -> Expmap v = Identity.
Proof. intros H. unfold Expmap. rewrite H. reflexivity. Qed.

Lemma Expmap_not_isZero (v : Vector3) :
  isZero v = false ->
  Expmap v =
  mkQuaternion (cos (/ 2 * norm v))
    (sin (/ 2 * norm v) * (vx v / norm v))
    (sin (/ 2 * norm v) * (vy v / norm v))
    (sin (/ 2 * norm v) * (vz v / norm v)).
Proof. intros H. unfold Expmap. rewrite H. reflexivity. Qed.

Lemma Logmap_Identity : Logmap Identity = Zero.
Proof.
  unfold Logmap, Identity; simpl.
  destruct (Rgt_dec 1 NearlyOne) as [_|Hn].
  - unfold scale, vec, Zero; simpl. f_equal; ring.
  - exfalso; apply Hn; unfold NearlyOne; lra.
Qed.

Lemma Logmap_near_identity (q : Quaternion) :
  qw q > NearlyOne -> Logmap q = scale (2 - 2 * (qw q - 1) / 3) (vec q).
Proof.
  intros H. unfold Logmap. destruct (Rgt_dec (qw q) NearlyOne); [reflexivity|contradiction].
Qed.

Lemma Logmap_general (q : Quaternion) :
  NearlyNegativeOne <= qw q <= NearlyOne ->
  Logmap q = scale (wrap_angle (2 * acos (qw q)) / sqrt (1 - qw q * qw q)) (vec q).
Proof.
  intros [Hl Hu]. unfold Logmap.
  destruct (Rgt_dec (qw q) NearlyOne); [lra|].
  destruct (Rlt_dec (qw q) NearlyNegativeOne); [lra|]. reflexivity.
Qed.

Lemma wrap_angle_small (a : R) : - PI <= a <= PI -> wrap_angle a = a.
Proof.
  intros [Hl Hu]. unfold wrap_angle.
  destruct (Rgt_dec a PI); [lra|]. destruct (Rlt_dec a (- PI)); [lra|]. reflexivity.
Qed.

Lemma wrap_angle_large (a : R) : PI < a -> wrap_angle a = a - 2 * PI.
Proof.
  intros H. unfold wrap_angle, twoPi. destruct (Rgt_dec a PI); [reflexivity|lra].
Qed.

End VectorFacts.

(** ** Logmap after Expmap *)

Section LogmapExpmap.
Local Open Scope R_scope.

Variable v : Vector3.
Hypothesis v_nonzero : isZero v = false.
Hypothesis v_small : norm v < PI.






End LogmapExpmap.

Section LogmapExpmapClaim.
Local Open Scope R_scope.



End LogmapExpmapClaim.

(** ** Expmap after Logmap *)

Section ExpmapLogmap.
Local Open Scope R_scope.

Variable q : Quaternion.
Hypothesis q_unit : isUnit q.

Lemma unit_scalar_range : -1 <= qw q <= 1.
Proof. unfold isUnit in q_unit. split; nra. Qed.

Lemma unit_vec_squaredNorm : squaredNorm (vec q) = 1 - qw q * qw q.
Proof. unfold isUnit in q_unit. unfold squaredNorm, vec; simpl. lra. Qed.

Lemma unit_vec_norm : norm (vec q) = sqrt (1 - qw q * qw q).
Proof. unfold norm. rewrite unit_vec_squaredNorm. reflexivity. Qed.

Lemma square_as_abs (x : R) : x * x = Rabs x * Rabs x.
Proof.
  rewrite <- Rabs_mult. symmetry. apply Rabs_pos_eq. nra.
Qed.

(** A gain of magnitude at least 2 on a vector part that is not tiny keeps
    the scaled vector off Eigen's isZero threshold. *)
Lemma scaled_vec_not_isZero (k : R) :
  2 <= Rabs k -> 1e-20 <= squaredNorm (vec q) -> isZero (scale k (vec q)) = false.
Proof.
  intros Hk Hs. destruct (isZero (scale k (vec q))) eqn:E; [|reflexivity].
  exfalso. apply isZero_true_iff in E. unfold scale, vec in E; simpl in E.
  rewrite !Rabs_mult in E. destruct E as (Hx & Hy & Hz).
  pose proof (Rabs_pos (qx q)). pose proof (Rabs_pos (qy q)).
  pose proof (Rabs_pos (qz q)).
  assert (Rabs (qx q) <= 5e-13) by nra.
  assert (Rabs (qy q) <= 5e-13) by nra.
  assert (Rabs (qz q) <= 5e-13) by nra.
  unfold squaredNorm, vec in Hs; simpl in Hs.
  rewrite (square_as_abs (qx q)), (square_as_abs (qy q)),
    (square_as_abs (qz q)) in Hs.
  nra.
Qed.

Hypothesis q_general : NearlyNegativeOne <= qw q <= NearlyOne.

Lemma general_facts :
  -1 < qw q < 1 /\ 0 < sqrt (1 - qw q * qw q) /\
  1e-20 <= squaredNorm (vec q) /\ 0 < acos (qw q) < PI /\
  sin (acos (qw q)) = sqrt (1 - qw q * qw q) /\ cos (acos (qw q)) = qw q.
Proof.
  destruct q_general as [Hl Hu]. unfold NearlyNegativeOne, NearlyOne in Hl, Hu.
  assert (Hw : -1 < qw q < 1) by lra.
  split; [exact Hw|]. split; [apply general_divisor_positive; exact q_general|].
  split; [rewrite unit_vec_squaredNorm; nra|].
  split; [apply acos_bound_lt; exact Hw|].
  split; [apply sqrt_1_minus_sqr_acos; lra | apply cos_acos; lra].
Qed.

Lemma general_acos_nonneg : 0 <= qw q -> acos (qw q) <= PI / 2.
Proof.
  intros Hw. destruct general_facts as (_ & _ & _ & [Ha0 Ha1] & _ & Hc).
  destruct (Rle_dec (acos (qw q)) (PI / 2)) as [H|H]; [exact H|].
  exfalso. assert (cos (acos (qw q)) < 0) by (apply cos_lt_0; lra). lra.
Qed.

Lemma general_acos_neg : qw q < 0 -> PI / 2 < acos (qw q).
Proof.
  intros Hw. destruct general_facts as (_ & _ & _ & [Ha0 Ha1] & _ & Hc).
  destruct (Rlt_dec (PI / 2) (acos (qw q))) as [H|H]; [exact H|].
  exfalso. assert (0 <= cos (acos (qw q))) by (apply cos_ge_0; lra). lra.
Qed.

Lemma Expmap_Logmap_general_nonneg : 0 <= qw q -> Expmap (Logmap q) = q.
Proof.
  intros Hw. destruct general_facts as (Hr & Hs & Hv & [Ha0 Ha1] & Hsin & Hcos).
  pose proof (general_acos_nonneg Hw) as Ha2.
  set (s := sqrt (1 - qw q * qw q)) in *. set (a := acos (qw q)) in *.
  assert (Hsa : s < a) by (rewrite <- Hsin; apply sin_lt_x; exact Ha0).
  rewrite (Logmap_general q q_general). fold s a.
  rewrite wrap_angle_small by lra.
  assert (Hk : 2 <= 2 * a / s).
  { apply Rmult_le_reg_r with s; [exact Hs|].
    replace (2 * a / s * s) with (2 * a) by (field; lra). lra. }
  assert (Hnz : isZero (scale (2 * a / s) (vec q)) = false).
  { apply scaled_vec_not_isZero; [|exact Hv]. rewrite Rabs_pos_eq; lra. }
  rewrite (Expmap_not_isZero _ Hnz).
  assert (Hn : norm (scale (2 * a / s) (vec q)) = 2 * a).
  { rewrite norm_scale, unit_vec_norm. fold s. rewrite Rabs_pos_eq by lra.
    field; lra. }
  rewrite Hn. replace (/ 2 * (2 * a)) with a by lra.
  rewrite Hsin, Hcos.
  destruct q as [w x y z]; unfold scale, vec; simpl.
  f_equal; field; lra.
Qed.

Lemma cos_PI_minus (x : R) : cos (PI - x) = - cos x.
Proof. rewrite cos_minus, cos_PI, sin_PI. ring. Qed.

Lemma Expmap_Logmap_general_neg : qw q < 0 -> Expmap (Logmap q) = negate q.
Proof.
  intros Hw. destruct general_facts as (Hr & Hs & Hv & [Ha0 Ha1] & Hsin & Hcos).
  pose proof (general_acos_neg Hw) as Ha2.
  set (s := sqrt (1 - qw q * qw q)) in *. set (a := acos (qw q)) in *.
  assert (Hsa : s < PI - a).
  { rewrite <- Hsin, <- sin_PI_x. apply sin_lt_x. lra. }
  rewrite (Logmap_general q q_general). fold s a.
  rewrite wrap_angle_large by lra.
  assert (Hk : 2 <= (2 * PI - 2 * a) / s).
  { apply Rmult_le_reg_r with s; [exact Hs|].
    replace ((2 * PI - 2 * a) / s * s) with (2 * PI - 2 * a) by (field; lra). lra. }
  assert (Hab : Rabs ((2 * a - 2 * PI) / s) = (2 * PI - 2 * a) / s).
  { replace ((2 * a - 2 * PI) / s) with (- ((2 * PI - 2 * a) / s)) by (field; lra).
    rewrite Rabs_Ropp. apply Rabs_pos_eq. lra. }
  assert (Hnz : isZero (scale ((2 * a - 2 * PI) / s) (vec q)) = false).
  { apply scaled_vec_not_isZero; [|exact Hv]. rewrite Hab. exact Hk. }
  rewrite (Expmap_not_isZero _ Hnz).
  assert (Hn : norm (scale ((2 * a - 2 * PI) / s) (vec q)) = 2 * (PI - a)).
  { rewrite norm_scale, unit_vec_norm. fold s. rewrite Hab. field; lra. }
  rewrite Hn. replace (/ 2 * (2 * (PI - a))) with (PI - a) by lra.
  rewrite cos_PI_minus, sin_PI_x, Hsin, Hcos.
  destruct q as [w x y z]; unfold scale, vec, negate; simpl.
  f_equal; field; lra.
Qed.

End ExpmapLogmap.

Section ExpmapLogmapNearIdentity.
Local Open Scope R_scope.

Variable q : Quaternion.
Hypothesis q_unit : isUnit q.
Hypothesis q_near : qw q > NearlyOne.

Lemma near_identity_facts :
  qw q <= 1 /\
  2 <= 2 - 2 * (qw q - 1) / 3 < 2 + 1e-10 /\
  0 <= sqrt (1 - qw q * qw q) /\
  sqrt (1 - qw q * qw q) * sqrt (1 - qw q * qw q) = 1 - qw q * qw q /\
  sqrt (1 - qw q * qw q) * sqrt (1 - qw q * qw q) < 2e-10 /\
  norm (scale (2 - 2 * (qw q - 1) / 3) (vec q))
    = (2 - 2 * (qw q - 1) / 3) * sqrt (1 - qw q * qw q).
Proof.
  pose proof (unit_scalar_range q q_unit) as [Hl Hu].
  unfold NearlyOne in q_near.
  set (c := 2 - 2 * (qw q - 1) / 3). set (s := sqrt (1 - qw q * qw q)).
  assert (Hc : 2 <= c < 2 + 1e-10) by (unfold c; lra).
  assert (Hs0 : 0 <= s) by apply sqrt_pos.
  assert (Hss : s * s = 1 - qw q * qw q) by (apply sqrt_sqrt; nra).
  repeat split; try lra; try nra.
  rewrite norm_scale, (unit_vec_norm q q_unit). fold s.
  rewrite Rabs_pos_eq by lra. reflexivity.
Qed.

Lemma vec_coords_le_s :
  Rabs (qx q) <= sqrt (1 - qw q * qw q) /\
  Rabs (qy q) <= sqrt (1 - qw q * qw q) /\
  Rabs (qz q) <= sqrt (1 - qw q * qw q).
Proof.
  pose proof (coords_le_norm (vec q)) as H.
  rewrite (unit_vec_norm q q_unit) in H. exact H.
Qed.

Lemma Expmap_Logmap_near_identity_close :
  qclose_to 1e-10 (Expmap (Logmap q)) q.
Proof.
  rewrite (Logmap_near_identity q q_near).
  destruct near_identity_facts as (Hw1 & [Hc2 Hc3] & Hs0 & Hss & Hs2 & Hn).
  destruct vec_coords_le_s as (Hx & Hy & Hz).
  unfold NearlyOne in q_near.
  set (c := 2 - 2 * (qw q - 1) / 3) in *.
  set (s := sqrt (1 - qw q * qw q)) in *.
  destruct (isZero (scale c (vec q))) eqn:Ez.
  - rewrite (Expmap_isZero _ Ez).
    apply isZero_true_iff in Ez. unfold scale, vec in Ez; simpl in Ez.
    rewrite !Rabs_mult, (Rabs_pos_eq c) in Ez by lra.
    destruct Ez as (Ex & Ey & Ez).
    pose proof (Rabs_pos (qx q)). pose proof (Rabs_pos (qy q)).
    pose proof (Rabs_pos (qz q)).
    unfold qclose_to, Identity; simpl.
    rewrite !Rminus_0_l, !Rabs_Ropp, (Rabs_pos_eq (1 - qw q)) by lra.
    repeat split; nra.
  - rewrite (Expmap_not_isZero _ Ez), Hn.
    pose proof (isZero_false_norm_pos _ Ez) as Hpos. rewrite Hn in Hpos.
    assert (Hs : 0 < s) by nra.
    set (u := / 2 * (c * s)).
    assert (Hu0 : 0 < u) by (unfold u; nra).
    assert (Hus : s <= u) by (unfold u; nra).
    assert (Hus' : u <= (1 + 5e-11) * s) by (unfold u; nra).
    assert (Hu1 : u <= 1) by nra.
    pose proof (sin_taylor_bounds u ltac:(lra)) as [Hsl _].
    pose proof (sin_lt_x u Hu0) as Hsu.
    pose proof (cos_taylor_bounds u ltac:(lra)) as [Hcl _].
    pose proof (COS_bound u) as [_ Hcu].
    assert (Huu : u * u <= (1 + 2e-10) * (s * s)) by nra.
    assert (Hgain : 1 - 1e-10 <= sin u / s <= 1 + 1e-10).
    { split.
      - apply Rmult_le_reg_r with s; [exact Hs|].
        replace (sin u / s * s) with (sin u) by (field; lra).
        assert (u ^ 3 = u * (u * u)) by ring.
        assert (u * (u * u) <= u * 3e-10) by nra.
        nra.
      - apply Rmult_le_reg_r with s; [exact Hs|].
        replace (sin u / s * s) with (sin u) by (field; lra). nra. }
    assert (G : forall x, Rabs x <= s ->
                sin u * (c * x / (c * s)) - x = (sin u / s - 1) * x)
      by (intros x _; field; lra).
    assert (B : forall x, Rabs x <= s ->
                Rabs (sin u * (c * x / (c * s)) - x) <= 1e-10).
    { intros x Hxs. rewrite (G x Hxs), Rabs_mult.
      assert (Rabs (sin u / s - 1) <= 1e-10) by (apply Rabs_le; lra).
      pose proof (Rabs_pos (sin u / s - 1)). pose proof (Rabs_pos x).
      assert (Rabs x <= 1) by nra.
      nra. }
    unfold qclose_to, scale, vec; simpl. fold u.
    split; [|auto].
    apply Rabs_le. replace (u ^ 2) with (u * u) in Hcl by ring. nra.
Qed.

End ExpmapLogmapNearIdentity.

Section ExpmapLogmapClaim.
Local Open Scope R_scope.

Lemma Expmap_Logmap_near_antipodal (q : Quaternion) :
  isUnit q -> qw q < NearlyNegativeOne ->
  Expmap (Logmap q) = Identity /\ qclose_to 1.5e-5 Identity (negate q).
Proof.
  intros Hu Hw. destruct q as [w x y z]; simpl in Hw.
  rewrite (Logmap_antipodal_branch w x y z Hw), (Expmap_isZero Zero isZero_Zero).
  split; [reflexivity|].
  unfold isUnit in Hu; simpl in Hu. unfold NearlyNegativeOne in Hw.
  assert (Hw1 : -1 <= w) by nra.
  assert (B : forall t, t * t <= 1 - w * w -> Rabs (0 - - t) <= 1.5e-5).
  { intros t Ht. apply Rabs_le. split; nra. }
  unfold qclose_to, Identity, negate; simpl.
  split; [apply Rabs_le; lra|].
  repeat split; apply B; nra.
Qed.

(** The unit quaternion with w = -(10^12-1)/(10^12+1) and x = 2*10^6/(10^12+1):
    its scalar part is below NearlyNegativeOne, its vector part is not zero. *)
Lemma near_antipodal_unit_facts :
  let q0 := mkQuaternion (- (999999999999 / 1000000000001))
              (2000000 / 1000000000001) 0 0 in
  isUnit q0 /\ qw q0 < NearlyNegativeOne /\ qx q0 <> 0.
Proof.
  intros q0. unfold isUnit, NearlyNegativeOne, q0; simpl.
  split; [field|]. split; lra.
Qed.

(** C3, as worded, fails: for the unit quaternion
    q0 = (-(10^12-1)/(10^12+1), 2*10^6/(10^12+1), 0, 0) Logmap takes the
    zero-vector branch, Expmap of zero is the identity, and the identity is
    neither q0 nor -q0. *)
Lemma Expmap_Logmap_exact_counterexample :
  isUnit (mkQuaternion (- (999999999999 / 1000000000001))
            (2000000 / 1000000000001) 0 0) /\
  ~ (Expmap (Logmap (mkQuaternion (- (999999999999 / 1000000000001))
                       (2000000 / 1000000000001) 0 0))
       = mkQuaternion (- (999999999999 / 1000000000001))
           (2000000 / 1000000000001) 0 0
     \/ Expmap (Logmap (mkQuaternion (- (999999999999 / 1000000000001))
                          (2000000 / 1000000000001) 0 0))
       = negate (mkQuaternion (- (999999999999 / 1000000000001))
                   (2000000 / 1000000000001) 0 0)).
Proof.
  destruct near_antipodal_unit_facts as (Hu & Hw & Hx).
  split; [exact Hu|].
  destruct (Expmap_Logmap_near_antipodal _ Hu Hw) as [E _]. rewrite E.
  intros [K|K]; apply (f_equal qx) in K; simpl in K; lra.
Qed.

Lemma qclose_to_refl (tol : R) (q : Quaternion) : 0 <= tol -> qclose_to tol q q.
Proof.
  intros Ht. unfold qclose_to. rewrite !Rminus_diag, Rabs_R0. auto.
Qed.

(** C3, amended: for a unit quaternion q whose scalar part is at least
    NearlyNegativeOne, Expmap(Logmap(q)) equals q or -q within numerical
    tolerance: it is q or -q in Logmap's general branch, and within 1e-10 of q
    in each coefficient above NearlyOne.  Below NearlyNegativeOne the result
    is the identity, which is within 1.5e-5 of -q in each coefficient. *)
Theorem Expmap_Logmap_up_to_sign (q : Quaternion) :
  isUnit q ->
  (NearlyNegativeOne <= qw q ->
     qclose_to 1e-10 (Expmap (Logmap q)) q \/
     qclose_to 1e-10 (Expmap (Logmap q)) (negate q))
  /\ (regime (qw q) = General ->
        Expmap (Logmap q) = q \/ Expmap (Logmap q) = negate q)
  /\ (qw q < NearlyNegativeOne ->
        Expmap (Logmap q) = Identity /\
        qclose_to 1.5e-5 (Expmap (Logmap q)) (negate q)).
Proof.
  intros Hu.
  assert (HG : NearlyNegativeOne <= qw q <= NearlyOne ->
               Expmap (Logmap q) = q \/ Expmap (Logmap q) = negate q).
  { intros Hr. destruct (Rle_dec 0 (qw q)) as [Hw|Hw].
    - left. apply Expmap_Logmap_general_nonneg; assumption.
    - right. apply Expmap_Logmap_general_neg; [assumption..|lra]. }
  split; [|split].
  - intros Hl. destruct (Rgt_dec (qw q) NearlyOne) as [Hn|Hn].
    + left. exact (Expmap_Logmap_near_identity_close q Hu Hn).
    + destruct (HG ltac:(lra)) as [E|E]; rewrite E;
        [left|right]; apply qclose_to_refl; lra.
  - intros Hr. apply regime_General in Hr. exact (HG Hr).
  - intros Hr. destruct (Expmap_Logmap_near_antipodal q Hu Hr) as [E C].
    rewrite E. split; [reflexivity | exact C].
Qed.

Lemma Expmap_Logmap_up_to_sign_witness :
  isUnit (mkQuaternion 0 1 0 0) /\
  (Expmap (Logmap (mkQuaternion 0 1 0 0)) = mkQuaternion 0 1 0 0 \/
   Expmap (Logmap (mkQuaternion 0 1 0 0)) = negate (mkQuaternion 0 1 0 0)).
Proof.
  assert (Hu : isUnit (mkQuaternion 0 1 0 0)) by (unfold isUnit; simpl; lra).
  split; [exact Hu|].
  destruct (Expmap_Logmap_up_to_sign (mkQuaternion 0 1 0 0) Hu) as (_ & HG & _).
  apply HG. apply regime_General.
  unfold NearlyNegativeOne, NearlyOne; simpl. lra.
Defined.

End ExpmapLogmapClaim.

(** ** The constraint tests *)

Section ConstraintTests.
Import Tests.

Example unary_scalar_construction_passes : unary_scalar_construction.CHECK = true.
Proof. reflexivity. Qed.

Example unary_scalar_linearize_passes : unary_scalar_linearize.CHECK = true.
Proof. reflexivity. Qed.

Example unary_scalar_equal_passes : unary_scalar_equal.CHECK = true.
Proof. reflexivity. Qed.

(** What the comparisons of the test pin down, whatever produced the factor
    under test. *)

Lemma close_true (a b tol : Qc) :
  close a b tol = true <-> (Qcabs (a - b) <= tol)%Qc.
Proof. unfold close. apply bool_decide_eq_true. Qed.

Lemma equal_with_abs_tol_singleton (v : Vector) (b tol : Qc) :
  equal_with_abs_tol v [b] tol = true ->
  exists a, v = [a] /\ (Qcabs (a - b) <= tol)%Qc.
Proof.
  destruct v as [|a [|a' v]]; simpl; intros H; try discriminate.
  - rewrite andb_true_r in H. exists a. split; [reflexivity|].
    apply close_true, H.
  - rewrite andb_false_r in H. discriminate.
Qed.

Lemma equal_with_abs_tol_M_singleton (A : Matrix) (b tol : Qc) :
  equal_with_abs_tol_M A [[b]] tol = true ->
  exists a, A = [[a]] /\ (Qcabs (a - b) <= tol)%Qc.
Proof.
  destruct A as [|r [|r' A]]; simpl; intros H; try discriminate.
  - rewrite andb_true_r in H.
    destruct (equal_with_abs_tol_singleton r b tol H) as (a & -> & Ha).
    exists a. split; [reflexivity | exact Ha].
  - rewrite andb_false_r in H. discriminate.
Qed.

Lemma blocks_equal_lookup (m1 m2 : gmap string Matrix) (tol : Qc)
    (k : string) (B : Matrix) :
  blocks_equal m1 m2 tol = true -> m2 !! k = Some B ->
  exists A, m1 !! k = Some A /\ equal_with_abs_tol_M A B tol = true.
Proof.
  unfold blocks_equal. rewrite andb_true_iff, bool_decide_eq_true.
  intros [Hdom Hall] Hk.
  assert (Hin : k ∈ dom m1) by (rewrite Hdom; apply elem_of_dom; eauto).
  apply elem_of_dom in Hin. destruct Hin as [A HA].
  exists A. split; [exact HA|].
  rewrite forallb_forall in Hall.
  specialize (Hall (k, A)). simpl in Hall. rewrite Hk in Hall.
  apply Hall. apply list_elem_of_In, elem_of_map_to_list. exact HA.
Qed.

Lemma CHECK_factor_sound (cost : GaussianFactor) :
  unary_scalar_linearize.CHECK_factor cost = true ->
  exists a l r : Qc,
    As_ cost !! "x" = Some [[a]] /\ (Qcabs (a - Q2Qc 6) <= default_tol)%Qc /\
    As_ cost !! "L_x1" = Some [[l]] /\ (Qcabs (l - Q2Qc 1) <= default_tol)%Qc /\
    b_ cost = [r] /\ (Qcabs (r - Q2Qc 0) <= default_tol)%Qc /\
    (Qcabs (sigma_ cost - Q2Qc 1) <= default_tol)%Qc.
Proof.
  unfold unary_scalar_linearize.CHECK_factor, GaussianFactor_equals.
  rewrite !andb_true_iff. intros [[HA Hb] Hs].
  destruct (blocks_equal_lookup _ _ _ "x" [[Q2Qc 6]] HA eq_refl) as (A & HAx & EA).
  destruct (equal_with_abs_tol_M_singleton _ _ _ EA) as (a & -> & Ha).
  destruct (blocks_equal_lookup _ _ _ "L_x1" [[Q2Qc 1]] HA eq_refl) as (L & HLx & EL).
  destruct (equal_with_abs_tol_M_singleton _ _ _ EL) as (l & -> & Hl).
  destruct (equal_with_abs_tol_singleton _ _ _ Hb) as (r & Hr & Hr').
  exists a, l, r. repeat split; try assumption. apply close_true, Hs.
Qed.

Lemma CHECK_constraint_sound (con : GaussianFactor) :
  unary_scalar_linearize.CHECK_constraint con = true ->
  exists a r : Qc,
    As_ con !! "x" = Some [[a]] /\ (Qcabs (a - Q2Qc 2) <= default_tol)%Qc /\
    b_ con = [r] /\ (Qcabs (r - Q2Qc (-4)) <= default_tol)%Qc /\
    (Qcabs (sigma_ con - Q2Qc 0) <= default_tol)%Qc.
Proof.
  unfold unary_scalar_linearize.CHECK_constraint, GaussianFactor_equals.
  rewrite !andb_true_iff. intros [[HA Hb] Hs].
  destruct (blocks_equal_lookup _ _ _ "x" [[Q2Qc 2]] HA eq_refl) as (A & HAx & EA).
  destruct (equal_with_abs_tol_M_singleton _ _ _ EA) as (a & -> & Ha).
  destruct (equal_with_abs_tol_singleton _ _ _ Hb) as (r & Hr & Hr').
  exists a, r. repeat split; try assumption. apply close_true, Hs.
Qed.

(** C4: error_vector evaluates the constraint function at the factor's key;
    for g(x) = x^2 - 5 on a configuration binding "x" to [x] it is the
    1-vector [x*x - 5], of length p = 1, and at x = 1 it is [-4], which is what
    the test checks. *)
Theorem error_vector_unary_scalar :
  (forall (c : NonlinearConstraint1) (config : VectorConfig),
      error_vector c config = g_ c config (key_ c))
  /\ (forall (x : Qc) (config : VectorConfig),
        error_vector unary_scalar_construction.c1 (<["x" := [x]]> config)
          = Some [(x * x - Q2Qc 5)%Qc]
        /\ length [(x * x - Q2Qc 5)%Qc] = p_ unary_scalar_construction.c1)
  /\ error_vector unary_scalar_construction.c1 unary_scalar_construction.config
      = Some [Q2Qc (-4)]
  /\ unary_scalar_construction.CHECK = true.
Proof.
  split; [reflexivity|]. split; [|split; reflexivity].
  intros x config. split; [|reflexivity].
  unfold error_vector, unary_scalar_construction.c1, test1.g_func; simpl.
  rewrite lookup_insert_eq. reflexivity.
Qed.

(** C5: linearizing g(x) = x^2 - 5 at x = 1 with multiplier 3 gives the cost
    factor with block [6] on "x" (the Jacobian [2] scaled by 3), the 1x1
    identity on "L_x1", right-hand side [0] and sigma 1: the factor the test
    expects; and every factor that passes the test's CHECK against expFactor
    has these blocks, right-hand side and sigma within 1e-9. *)
Theorem linearize_cost_factor :
  exists cost con : GaussianFactor,
    linearize unary_scalar_linearize.c1 unary_scalar_linearize.realconfig
      unary_scalar_linearize.lagrangeConfig = Some (cost, con)
    /\ test1.grad_g unary_scalar_linearize.realconfig "x" = Some [[Q2Qc 2]]
    /\ unary_scalar_linearize.lagrangeConfig !! "L_x1" = Some [Q2Qc 3]
    /\ vector_scale [[Q2Qc 2]] [Q2Qc 3] = [[Q2Qc 6]]
    /\ As_ cost !! "x" = Some [[Q2Qc 6]]
    /\ As_ cost !! "L_x1" = Some [[Q2Qc 1]]
    /\ As_ cost = <["L_x1" := eye 1]> (<["x" := [[Q2Qc 6]]]> ∅)
    /\ b_ cost = [Q2Qc 0]
    /\ sigma_ cost = Q2Qc 1
    /\ cost = unary_scalar_linearize.expFactor
    /\ unary_scalar_linearize.CHECK_factor cost = true
    /\ (forall cost' : GaussianFactor,
          unary_scalar_linearize.CHECK_factor cost' = true ->
          exists a l r : Qc,
            As_ cost' !! "x" = Some [[a]] /\
            (Qcabs (a - Q2Qc 6) <= default_tol)%Qc /\
            As_ cost' !! "L_x1" = Some [[l]] /\
            (Qcabs (l - Q2Qc 1) <= default_tol)%Qc /\
            b_ cost' = [r] /\ (Qcabs (r - Q2Qc 0) <= default_tol)%Qc /\
            (Qcabs (sigma_ cost' - Q2Qc 1) <= default_tol)%Qc).
Proof.
  eexists _, _. split; [reflexivity|].
  repeat (split; [reflexivity|]). exact CHECK_factor_sound.
Qed.

(** C1, as worded, fails: the constraint factor produced at x = 1 passes the
    test's CHECK against expConstraint and its right-hand side is not [4];
    and no factor whose right-hand side is [4] passes that CHECK. *)
Lemma linearize_constraint_rhs_counterexample :
  (exists cost con : GaussianFactor,
     linearize unary_scalar_linearize.c1 unary_scalar_linearize.realconfig
       unary_scalar_linearize.lagrangeConfig = Some (cost, con)
     /\ unary_scalar_linearize.CHECK_constraint con = true
     /\ b_ con <> [Q2Qc 4])
  /\ ~ (exists con : GaussianFactor,
          unary_scalar_linearize.CHECK_constraint con = true
          /\ b_ con = [Q2Qc 4]).
Proof.
  split.
  - eexists _, _. split; [reflexivity|]. split; [reflexivity|].
    simpl. intros H. inversion H.
  - intros (con & Hc & Hb).
    unfold unary_scalar_linearize.CHECK_constraint, GaussianFactor_equals in Hc.
    rewrite Hb in Hc.
    assert (E : equal_with_abs_tol [Q2Qc 4]
                  (b_ unary_scalar_linearize.expConstraint) default_tol = false)
      by reflexivity.
    rewrite E, andb_false_r in Hc. discriminate.
Qed.

(** C1, amended: linearizing g(x) = x^2 - 5 at x = 1 gives the constraint
    factor with block [2] on "x", right-hand side the residual itself, [-4]
    (not negated), and sigma 0 (a hard constraint): the factor the test
    expects; and every factor that passes the test's CHECK against
    expConstraint has block, right-hand side and sigma within 1e-9 of
    these. *)
Theorem linearize_constraint_factor :
  exists cost con : GaussianFactor,
    linearize unary_scalar_linearize.c1 unary_scalar_linearize.realconfig
      unary_scalar_linearize.lagrangeConfig = Some (cost, con)
    /\ As_ con = <["x" := [[Q2Qc 2]]]> ∅
    /\ error_vector unary_scalar_linearize.c1
         unary_scalar_linearize.realconfig = Some (b_ con)
    /\ b_ con = [Q2Qc (-4)]
    /\ sigma_ con = Q2Qc 0
    /\ con = unary_scalar_linearize.expConstraint
    /\ unary_scalar_linearize.CHECK_constraint con = true
    /\ (forall con' : GaussianFactor,
          unary_scalar_linearize.CHECK_constraint con' = true ->
          exists a r : Qc,
            As_ con' !! "x" = Some [[a]] /\
            (Qcabs (a - Q2Qc 2) <= default_tol)%Qc /\
            b_ con' = [r] /\ (Qcabs (r - Q2Qc (-4)) <= default_tol)%Qc /\
            (Qcabs (sigma_ con' - Q2Qc 0) <= default_tol)%Qc).
Proof.
  eexists _, _. split; [reflexivity|].
  repeat (split; [reflexivity|]). exact CHECK_constraint_sound.
Qed.

(** C6: equals holds exactly when the primal keys (in order), the dimension p
    and the multiplier key agree; it is symmetric; the four factors of the
    test compare as the test checks: c1 and c2 equal both ways, c3 (p = 2)
    and c4 (key "y") different from c1. *)
Theorem equals_iff_keys_dimension_multiplier :
  (forall (a b : NonlinearConstraint1) (tol : Qc),
      equals a b tol = true <->
      keys a = keys b /\ p_ a = p_ b /\ lagrange_key_ a = lagrange_key_ b)
  /\ (forall (a b : NonlinearConstraint1) (tol : Qc),
        equals a b tol = equals b a tol)
  /\ equals unary_scalar_equal.c1 unary_scalar_equal.c2 default_tol = true
  /\ equals unary_scalar_equal.c2 unary_scalar_equal.c1 default_tol = true
  /\ equals unary_scalar_equal.c1 unary_scalar_equal.c3 default_tol = false
  /\ equals unary_scalar_equal.c1 unary_scalar_equal.c4 default_tol = false.
Proof.
  split; [|split; [|repeat split; reflexivity]].
  - intros a b tol. unfold equals.
    rewrite !andb_true_iff, !bool_decide_eq_true. tauto.
  - intros a b tol. unfold equals.
    rewrite (bool_decide_ext (keys a = keys b) (keys b = keys a)) by (split; congruence).
    rewrite (bool_decide_ext (p_ a = p_ b) (p_ b = p_ a)) by (split; congruence).
    rewrite (bool_decide_ext (lagrange_key_ a = lagrange_key_ b)
               (lagrange_key_ b = lagrange_key_ a)) by (split; congruence).
    reflexivity.
Qed.

End ConstraintTests.

(** ** Further properties of Expmap *)

Section ExpmapProperties.
Local Open Scope R_scope.

Lemma isUnit_fromAngleAxis (angle : R) (axis : Vector3) :
  squaredNorm axis = 1 -> isUnit (fromAngleAxis (mkAngleAxis angle axis)).
Proof.
  intros Ha. unfold isUnit, fromAngleAxis; simpl.
  set (h := / 2 * angle).
  pose proof (sin2_cos2 h) as E. unfold Rsqr in E.
  unfold squaredNorm in Ha.
  replace (cos h * cos h + sin h * vx axis * (sin h * vx axis)
           + sin h * vy axis * (sin h * vy axis)
           + sin h * vz axis * (sin h * vz axis))
    with (cos h * cos h
          + sin h * sin h * (vx axis * vx axis + vy axis * vy axis
                             + vz axis * vz axis)) by ring.
  rewrite Ha. lra.
Qed.

Lemma squaredNorm_divide_norm (v : Vector3) :
  0 < norm v -> squaredNorm (divide v (norm v)) = 1.
Proof.
  intros Hn. pose proof (norm_sqr v) as E. unfold squaredNorm in *.
  unfold divide; simpl.
  replace (vx v / norm v * (vx v / norm v) + vy v / norm v * (vy v / norm v)
           + vz v / norm v * (vz v / norm v))
    with ((vx v * vx v + vy v * vy v + vz v * vz v) / (norm v * norm v))
    by (field; lra).
  rewrite <- E. field. lra.
Qed.

(** X1: for every tangent vector whose components are at most 1e100 in
    magnitude (so that squaredNorm and norm stay in the range of a double),
    Expmap returns a unit quaternion. *)
Theorem Expmap_is_unit (v : Vector3) :
  Rabs (vx v) <= 1e100 -> Rabs (vy v) <= 1e100 -> Rabs (vz v) <= 1e100 ->
  isUnit (Expmap v).
Proof.
  intros _ _ _. unfold Expmap. destruct (isZero v) eqn:Hz.
  - unfold isUnit, Identity; simpl. lra.
  - apply isUnit_fromAngleAxis, squaredNorm_divide_norm.
    apply isZero_false_norm_pos, Hz.
Qed.

Lemma Expmap_is_unit_witness :
  Rabs (vx (mkVector3 3 (-4) 12)) <= 1e100 /\
  isUnit (Expmap (mkVector3 3 (-4) 12)).
Proof.
  assert (B : forall t : R, -13 <= t <= 13 -> Rabs t <= 1e100)
    by (intros t Ht; apply Rabs_le; lra).
  assert (Hx : Rabs (vx (mkVector3 3 (-4) 12)) <= 1e100)
    by (apply B; simpl; lra).
  split; [exact Hx|].
  apply (Expmap_is_unit (mkVector3 3 (-4) 12) Hx); apply B; simpl; lra.
Defined.

(** X2: the angle/axis overload returns a unit quaternion when the axis is a
    unit vector. *)
Theorem Expmap_angle_axis_is_unit (angle : R) (axis : Vector3) :
  squaredNorm axis = 1 -> isUnit (Expmap_angle_axis angle axis).
Proof. intros Ha. unfold Expmap_angle_axis. apply isUnit_fromAngleAxis, Ha. Qed.

Lemma Expmap_angle_axis_is_unit_witness :
  squaredNorm (mkVector3 0 0 1) = 1 /\
  isUnit (Expmap_angle_axis (PI / 3) (mkVector3 0 0 1)).
Proof.
  assert (H : squaredNorm (mkVector3 0 0 1) = 1)
    by (unfold squaredNorm; simpl; lra).
  split; [exact H | exact (Expmap_angle_axis_is_unit (PI / 3) _ H)].
Defined.

(** X3: the double cover in the angle/axis overload: a full turn more in the
    angle gives the antipodal quaternion, two full turns more give the same
    quaternion. *)
Theorem Expmap_angle_axis_full_turn (angle : R) (axis : Vector3) :
  Expmap_angle_axis (angle + 2 * PI) axis
    = negate (Expmap_angle_axis angle axis)
  /\ Expmap_angle_axis (angle + 4 * PI) axis = Expmap_angle_axis angle axis.
Proof.
  assert (T : forall a, Expmap_angle_axis (a + 2 * PI) axis
                        = negate (Expmap_angle_axis a axis)).
  { intros a. unfold Expmap_angle_axis, fromAngleAxis, negate.
    cbn [aa_angle aa_axis qw qx qy qz].
    replace (/ 2 * (a + 2 * PI)) with (/ 2 * a + PI) by lra.
    rewrite neg_cos, neg_sin.
    apply Quaternion_eq; cbn [qw qx qy qz]; ring. }
  split; [apply T|].
  replace (angle + 4 * PI) with (angle + 2 * PI + 2 * PI) by lra.
  rewrite !T.
  destruct (Expmap_angle_axis angle axis) as [w x y z].
  unfold negate. apply Quaternion_eq; cbn [qw qx qy qz]; ring.
Qed.

Lemma isZero_scale_opp (v : Vector3) : isZero (scale (-1) v) = isZero v.
Proof.
  unfold isZero, isZero_prec, isMuchSmallerThan, scale; simpl.
  replace (-1 * vx v) with (- vx v) by ring.
  replace (-1 * vy v) with (- vy v) by ring.
  replace (-1 * vz v) with (- vz v) by ring.
  rewrite !Rabs_Ropp. reflexivity.
Qed.

(** X4: the inverse rotation is the negated tangent vector, in both
    directions: Expmap of -v is the conjugate of Expmap of v, and Logmap of
    the conjugate of q is minus Logmap of q. *)
Theorem Expmap_Logmap_conjugate :
  (forall v : Vector3, Expmap (scale (-1) v) = conjugate (Expmap v))
  /\ (forall q : Quaternion, Logmap (conjugate q) = scale (-1) (Logmap q)).
Proof.
  split.
  - intros v. unfold Expmap. rewrite isZero_scale_opp.
    destruct (isZero v) eqn:Hz.
    + unfold conjugate, Identity; simpl. f_equal; ring.
    + pose proof (isZero_false_norm_pos v Hz) as Hn.
      rewrite norm_scale.
      replace (Rabs (-1)) with 1
        by (unfold Rabs; destruct (Rcase_abs (-1)); lra).
      rewrite Rmult_1_l.
      unfold fromAngleAxis, conjugate, divide, scale; simpl.
      f_equal; field; lra.
  - intros q. unfold Logmap, conjugate; simpl.
    destruct (Rgt_dec (qw q) NearlyOne).
    + unfold scale, vec; simpl. f_equal; ring.
    + destruct (Rlt_dec (qw q) NearlyNegativeOne).
      * unfold scale, Zero; simpl. f_equal; ring.
      * unfold scale, vec; simpl. f_equal; ring.
Qed.

(** X5: Expmap is injective on the tangent vectors that are not isZero and
    have norm below 2*pi. *)
Theorem Expmap_injective (v1 v2 : Vector3) :
  isZero v1 = false -> isZero v2 = false ->
  norm v1 < 2 * PI -> norm v2 < 2 * PI ->
  Expmap v1 = Expmap v2 -> v1 = v2.
Proof.
  intros Hz1 Hz2 Hn1 Hn2 E.
  pose proof (isZero_false_norm_pos v1 Hz1) as Hp1.
  pose proof (isZero_false_norm_pos v2 Hz2) as Hp2.
  rewrite (Expmap_not_isZero v1 Hz1), (Expmap_not_isZero v2 Hz2) in E.
  injection E as Ew Ex Ey Ez.
  assert (Eh : / 2 * norm v1 = / 2 * norm v2) by (apply cos_inj; lra).
  assert (En : norm v1 = norm v2) by lra.
  rewrite <- Eh, <- En in Ex, Ey, Ez.
  assert (Hs : 0 < sin (/ 2 * norm v1)) by (apply sin_gt_0; lra).
  assert (K : forall a b : R,
            sin (/ 2 * norm v1) * (a / norm v1)
            = sin (/ 2 * norm v1) * (b / norm v1) -> a = b).
  { intros a b H. apply Rmult_eq_reg_l in H; [|lra].
    unfold Rdiv in H. apply Rmult_eq_reg_r in H; [exact H|].
    apply Rinv_neq_0_compat. lra. }
  apply Vector3_eq; apply K; assumption.
Qed.

Lemma Expmap_injective_witness :
  isZero (mkVector3 1 0 0) = false /\
  norm (mkVector3 1 0 0) < 2 * PI /\
  (Expmap (mkVector3 1 0 0) = Expmap (mkVector3 1 0 0) ->
   mkVector3 1 0 0 = mkVector3 1 0 0).
Proof.
  assert (Hn : norm (mkVector3 1 0 0) = 1).
  { unfold norm, squaredNorm; simpl.
    replace (1 * 1 + 0 * 0 + 0 * 0) with 1 by ring. apply sqrt_1. }
  assert (Hz : isZero (mkVector3 1 0 0) = false).
  { destruct (isZero (mkVector3 1 0 0)) eqn:E; [|reflexivity].
    apply isZero_true_iff in E. destruct E as [E _]. simpl in E.
    rewrite Rabs_R1 in E. lra. }
  assert (Hs : norm (mkVector3 1 0 0) < 2 * PI)
    by (rewrite Hn; pose proof PI_gt_3; lra).
  split; [exact Hz|]. split; [exact Hs|].
  exact (Expmap_injective _ _ Hz Hz Hs Hs).
Defined.

(** X6: which vectors Expmap flattens to the identity through its isZero
    test: every vector of norm at most 1e-12 is, and every vector that is has
    norm at most 2e-12. *)
Theorem Expmap_isZero_band (v : Vector3) :
  (norm v <= 1e-12 -> Expmap v = Identity)
  /\ (isZero v = true -> norm v <= 2e-12).
Proof.
  split.
  - intros Hn. apply Expmap_isZero, isZero_true_iff.
    pose proof (coords_le_norm v) as (Hx & Hy & Hz). repeat split; lra.
  - intros Hz. apply isZero_true_iff in Hz. destruct Hz as (Hx & Hy & Hz).
    unfold norm. rewrite <- (sqrt_square 2e-12) by lra.
    apply sqrt_le_1_alt. unfold squaredNorm.
    rewrite (square_as_abs (vx v)), (square_as_abs (vy v)),
      (square_as_abs (vz v)).
    pose proof (Rabs_pos (vx v)). pose proof (Rabs_pos (vy v)).
    pose proof (Rabs_pos (vz v)). nra.
Qed.

End ExpmapProperties.

(** ** Further properties of Logmap *)

Section LogmapProperties.
Local Open Scope R_scope.

Lemma Logmap_general_norm (q : Quaternion) :
  isUnit q -> NearlyNegativeOne <= qw q <= NearlyOne ->
  norm (Logmap q) = 2 * acos (Rabs (qw q)) /\ 0 < norm (Logmap q) <= PI.
Proof.
  intros Hu Hg.
  destruct (general_facts q Hu Hg) as (Hr & Hs & Hv & [Ha0 Ha1] & Hsin & Hcos).
  assert (Hn : norm (Logmap q) = Rabs (wrap_angle (2 * acos (qw q)))).
  { rewrite (Logmap_general q Hg), norm_scale, (unit_vec_norm q Hu).
    unfold Rdiv. rewrite Rabs_mult, Rabs_inv.
    rewrite (Rabs_pos_eq (sqrt (1 - qw q * qw q))) by lra.
    field. lra. }
  rewrite Hn. destruct (Rle_dec 0 (qw q)) as [Hw|Hw].
  - pose proof (general_acos_nonneg q Hu Hg Hw) as Ha2.
    rewrite wrap_angle_small by lra.
    rewrite (Rabs_pos_eq (qw q)) by exact Hw.
    rewrite Rabs_pos_eq by lra. split; [reflexivity | lra].
  - assert (Hw' : qw q < 0) by lra.
    pose proof (general_acos_neg q Hu Hg Hw') as Ha2.
    rewrite wrap_angle_large by lra.
    rewrite (Rabs_left (qw q)) by exact Hw'.
    rewrite acos_opp, Rabs_left by lra. split; lra.
Qed.

Lemma norm_Zero : norm Zero = 0.
Proof.
  unfold norm, squaredNorm, Zero; simpl.
  replace (0 * 0 + 0 * 0 + 0 * 0) with 0 by ring. apply sqrt_0.
Qed.

Lemma norm_Logmap_le_PI (q : Quaternion) : isUnit q -> norm (Logmap q) <= PI.
Proof.
  intros Hu. pose proof PI_gt_3 as Hpi.
  destruct (Rgt_dec (qw q) NearlyOne) as [Hn|Hn].
  - destruct (near_identity_facts q Hu Hn) as (_ & [Hc2 Hc3] & Hs0 & _ & Hs2 & E).
    rewrite (Logmap_near_identity q Hn), E.
    set (s := sqrt (1 - qw q * qw q)) in *.
    assert (s <= 1) by nra. nra.
  - destruct (Rlt_dec (qw q) NearlyNegativeOne) as [Ha|Ha].
    + destruct q as [w x y z]; simpl in Ha.
      rewrite (Logmap_antipodal_branch w x y z Ha), norm_Zero. lra.
    + apply Logmap_general_norm; [exact Hu | lra].
Qed.

(** X7: for a unit quaternion the norm of Logmap never exceeds pi, and in the
    general branch it is the rotation angle 2*acos|w|, strictly positive. *)
Theorem Logmap_norm_is_rotation_angle (q : Quaternion) :
  isUnit q ->
  norm (Logmap q) <= PI
  /\ (regime (qw q) = General ->
      norm (Logmap q) = 2 * acos (Rabs (qw q)) /\ 0 < norm (Logmap q)).
Proof.
  intros Hu. split; [apply norm_Logmap_le_PI, Hu|].
  intros Hr. apply regime_General in Hr.
  destruct (Logmap_general_norm q Hu Hr) as [E [Hp _]]. split; assumption.
Qed.

Lemma Logmap_norm_is_rotation_angle_witness :
  isUnit (mkQuaternion 0 0 1 0) /\ norm (Logmap (mkQuaternion 0 0 1 0)) <= PI.
Proof.
  assert (Hu : isUnit (mkQuaternion 0 0 1 0)) by (unfold isUnit; simpl; lra).
  split; [exact Hu|].
  exact (proj1 (Logmap_norm_is_rotation_angle _ Hu)).
Defined.

(** X8: the kernel of Logmap on unit quaternions: the result is the zero
    vector exactly for the identity and for the quaternions whose scalar part
    is below NearlyNegativeOne. *)
Theorem Logmap_zero_iff (q : Quaternion) :
  isUnit q ->
  (Logmap q = Zero <-> q = Identity \/ qw q < NearlyNegativeOne).
Proof.
  intros Hu. split.
  - intros E.
    destruct (Rgt_dec (qw q) NearlyOne) as [Hn|Hn].
    + left. rewrite (Logmap_near_identity q Hn) in E.
      unfold NearlyOne in Hn.
      assert (Hc : 2 <= 2 - 2 * (qw q - 1) / 3)
        by (pose proof (unit_scalar_range q Hu); lra).
      set (c := 2 - 2 * (qw q - 1) / 3) in *.
      assert (Hx : c * qx q = 0) by (apply (f_equal vx) in E; exact E).
      assert (Hy : c * qy q = 0) by (apply (f_equal vy) in E; exact E).
      assert (Hz : c * qz q = 0) by (apply (f_equal vz) in E; exact E).
      assert (Hx0 : qx q = 0) by nra.
      assert (Hy0 : qy q = 0) by nra.
      assert (Hz0 : qz q = 0) by nra.
      unfold isUnit in Hu. rewrite Hx0, Hy0, Hz0 in Hu.
      assert (Hw : qw q = 1) by nra.
      apply Quaternion_eq; simpl; assumption.
    + destruct (Rlt_dec (qw q) NearlyNegativeOne) as [Ha|Ha]; [right; exact Ha|].
      exfalso.
      destruct (Logmap_general_norm q Hu ltac:(lra)) as [_ [Hp _]].
      rewrite E, norm_Zero in Hp. lra.
  - intros [E|Ha].
    + rewrite E. apply Logmap_Identity.
    + destruct q as [w x y z]; simpl in Ha.
      apply Logmap_antipodal_branch, Ha.
Qed.

Lemma Logmap_zero_iff_witness :
  isUnit Identity /\ Logmap Identity = Zero.
Proof.
  assert (Hu : isUnit Identity) by (unfold isUnit, Identity; simpl; lra).
  split; [exact Hu|].
  apply (proj2 (Logmap_zero_iff Identity Hu)). left. reflexivity.
Defined.

Lemma Expmap_scalar_nonneg (v : Vector3) : norm v <= PI -> 0 <= qw (Expmap v).
Proof.
  intros Hn. unfold Expmap. destruct (isZero v); simpl; [lra|].
  pose proof (norm_nonneg v). apply cos_ge_0; lra.
Qed.

(** X9: the round trip picks the representative with non-negative scalar
    part: for every unit quaternion q, Expmap(Logmap(q)) has w >= 0; more
    generally Expmap of a vector of norm at most pi has w >= 0. *)
Theorem Expmap_Logmap_scalar_nonneg :
  (forall v : Vector3, norm v <= PI -> 0 <= qw (Expmap v))
  /\ (forall q : Quaternion, isUnit q -> 0 <= qw (Expmap (Logmap q))).
Proof.
  split; [exact Expmap_scalar_nonneg|].
  intros q Hu. apply Expmap_scalar_nonneg, norm_Logmap_le_PI, Hu.
Qed.

Lemma acos_pos_lt_PI2 (w : R) : 0 < w <= 1 -> acos w < PI / 2.
Proof.
  intros Hw. pose proof (acos_bound w) as [H0 H1].
  destruct (Rlt_dec (acos w) (PI / 2)) as [H|H]; [exact H|].
  exfalso. assert (cos (acos w) <= 0) by (apply cos_le_0; lra).
  rewrite cos_acos in *; lra.
Qed.

Lemma Logmap_negate_pos (q : Quaternion) :
  0 < qw q <= NearlyOne -> Logmap (negate q) = Logmap q.
Proof.
  intros [H0 H1].
  assert (Hg : NearlyNegativeOne <= qw q <= NearlyOne)
    by (unfold NearlyNegativeOne; lra).
  assert (Hg' : NearlyNegativeOne <= qw (negate q) <= NearlyOne)
    by (unfold NearlyNegativeOne, NearlyOne in *; simpl; lra).
  pose proof (general_divisor_positive (qw q) Hg) as Hs.
  pose proof (acos_bound (qw q)) as [Ha0 _].
  pose proof (acos_pos_lt_PI2 (qw q) ltac:(unfold NearlyOne in H1; lra)) as Ha.
  rewrite (Logmap_general q Hg), (Logmap_general (negate q) Hg').
  cbn [negate qw].
  replace (1 - - qw q * - qw q) with (1 - qw q * qw q) by ring.
  rewrite acos_opp.
  rewrite (wrap_angle_small (2 * acos (qw q))) by lra.
  rewrite (wrap_angle_large (2 * (PI - acos (qw q)))) by lra.
  apply Vector3_eq; unfold scale, vec, negate; cbn [vx vy vz qx qy qz];
    field; lra.
Qed.

Lemma negate_involutive (q : Quaternion) : negate (negate q) = q.
Proof.
  destruct q as [w x y z]. unfold negate.
  apply Quaternion_eq; cbn [qw qx qy qz]; ring.
Qed.

(** X10: the double cover in Logmap: in the general branch q and -q have the
    same Logmap when the scalar part is at least 1e-10 away from 0; on the
    equator w = 0 the angle is pi on both sides and the two results are
    opposite. *)
Theorem Logmap_negate (q : Quaternion) :
  NearlyNegativeOne <= qw q <= NearlyOne ->
  (1e-10 <= Rabs (qw q) -> Logmap (negate q) = Logmap q)
  /\ (qw q = 0 -> Logmap (negate q) = scale (-1) (Logmap q)).
Proof.
  intros [Hl Hu]. split.
  - intros Habs.
    assert (Hne : qw q <> 0)
      by (intros E; rewrite E, Rabs_R0 in Habs; lra).
    destruct (Rlt_dec 0 (qw q)) as [Hp|Hp].
    + apply Logmap_negate_pos. lra.
    + rewrite <- (negate_involutive q) at 2. symmetry.
      apply Logmap_negate_pos. unfold NearlyNegativeOne, NearlyOne in *.
      cbn [negate qw]. lra.
  - intros Hw.
    assert (Hg : NearlyNegativeOne <= qw q <= NearlyOne) by lra.
    assert (Hg' : NearlyNegativeOne <= qw (negate q) <= NearlyOne)
      by (unfold NearlyNegativeOne, NearlyOne in *; simpl; lra).
    rewrite (Logmap_general q Hg), (Logmap_general (negate q) Hg').
    cbn [negate qw]. rewrite Hw, Ropp_0.
    set (k := wrap_angle (2 * acos 0) / sqrt (1 - 0 * 0)).
    apply Vector3_eq; unfold scale, vec, negate; cbn [vx vy vz qx qy qz];
      ring.
Qed.

Lemma Logmap_negate_witness :
  NearlyNegativeOne <= qw (mkQuaternion (1 / 2) (1 / 2) (1 / 2) (1 / 2))
    <= NearlyOne /\
  Logmap (negate (mkQuaternion (1 / 2) (1 / 2) (1 / 2) (1 / 2)))
    = Logmap (mkQuaternion (1 / 2) (1 / 2) (1 / 2) (1 / 2)).
Proof.
  assert (Hg : NearlyNegativeOne
               <= qw (mkQuaternion (1 / 2) (1 / 2) (1 / 2) (1 / 2))
               <= NearlyOne)
    by (unfold NearlyNegativeOne, NearlyOne; simpl; lra).
  split; [exact Hg|].
  apply (proj1 (Logmap_negate _ Hg)). simpl.
  rewrite Rabs_pos_eq; lra.
Defined.

End LogmapProperties.

Section AngleAxisRoundTrip.
Local Open Scope R_scope.

Lemma Logmap_Expmap_angle_axis_pos (h : R) (axis : Vector3) :
  0 <= h <= PI / 2 -> cos h <= NearlyOne ->
  Logmap (mkQuaternion (cos h) (sin h * vx axis) (sin h * vy axis)
            (sin h * vz axis))
  = scale (2 * h) axis.
Proof.
  intros [H0 H1] Hc. pose proof PI_RGT_0 as Hpi.
  assert (Hh : 0 < h).
  { destruct (Req_dec h 0) as [E|E]; [|lra].
    rewrite E, cos_0 in Hc. unfold NearlyOne in Hc. lra. }
  assert (Hcos0 : 0 <= cos h) by (apply cos_ge_0; lra).
  assert (Hsin : 0 < sin h) by (apply sin_gt_0; lra).
  rewrite Logmap_general; cbn [qw].
  2:{ split; [unfold NearlyNegativeOne; lra | exact Hc]. }
  rewrite acos_cos by lra.
  rewrite sqrt_1_minus_sqr_sin by lra.
  rewrite wrap_angle_small by lra.
  apply Vector3_eq; unfold scale, vec; cbn [vx vy vz qx qy qz]; field; lra.
Qed.

(** X11: Logmap undoes the angle/axis overload of Expmap: for an angle in
    [-pi, pi] whose half-angle cosine is at most NearlyOne, and any axis,
    Logmap(Expmap(angle, axis)) is angle * axis. *)
Theorem Logmap_Expmap_angle_axis (angle : R) (axis : Vector3) :
  - PI <= angle <= PI -> cos (/ 2 * angle) <= NearlyOne ->
  Logmap (Expmap_angle_axis angle axis) = scale angle axis.
Proof.
  intros [Hl Hu] Hc.
  unfold Expmap_angle_axis, fromAngleAxis. cbn [aa_angle aa_axis].
  set (h := / 2 * angle) in *.
  assert (E : angle = 2 * h) by (unfold h; lra).
  destruct (Rle_dec 0 h) as [Hh|Hh].
  - rewrite (Logmap_Expmap_angle_axis_pos h axis) by lra.
    rewrite E. reflexivity.
  - assert (Hc' : cos (- h) <= NearlyOne) by (rewrite cos_neg; exact Hc).
    pose proof (Logmap_Expmap_angle_axis_pos (- h) (scale (-1) axis)
                  ltac:(lra) Hc') as K.
    rewrite cos_neg, sin_neg in K.
    unfold scale in K; cbn [vx vy vz] in K.
    replace (- sin h * (-1 * vx axis)) with (sin h * vx axis) in K by ring.
    replace (- sin h * (-1 * vy axis)) with (sin h * vy axis) in K by ring.
    replace (- sin h * (-1 * vz axis)) with (sin h * vz axis) in K by ring.
    rewrite K. rewrite E.
    apply Vector3_eq; unfold scale; cbn [vx vy vz]; ring.
Qed.

Lemma Logmap_Expmap_angle_axis_witness :
  - PI <= 2 <= PI /\ cos (/ 2 * 2) <= NearlyOne /\
  Logmap (Expmap_angle_axis 2 (mkVector3 0 1 0)) = scale 2 (mkVector3 0 1 0).
Proof.
  assert (Hr : - PI <= 2 <= PI) by (pose proof PI_gt_3; lra).
  assert (Hc : cos (/ 2 * 2) <= NearlyOne).
  { pose proof (cos_taylor_bounds (/ 2 * 2) ltac:(lra)) as [_ Hu].
    unfold NearlyOne. lra. }
  split; [exact Hr|]. split; [exact Hc|].
  exact (Logmap_Expmap_angle_axis 2 (mkVector3 0 1 0) Hr Hc).
Defined.

End AngleAxisRoundTrip.

(** ** The functions of namespace test1 *)

Section TestFunctions.

Lemma Qc_two : Q2Qc 2 = (1 + 1)%Qc.
Proof. apply Qc_is_canon. reflexivity. Qed.

(** X12: grad_g is the gradient of g_func: for integer-valued x and d of
    magnitude at most 10^6 (every intermediate value is then an integer below
    2^53, which a double holds exactly), on a configuration binding the key
    to x, g(x) = x^2 - 5, gradG(x) = 2x and
    g(x + d) = g(x) + gradG(x) * d + d^2. *)
Theorem grad_g_is_gradient_of_g_func (key : string) (a b : Z)
    (config : VectorConfig) :
  (Z.abs a <= 1000000)%Z -> (Z.abs b <= 1000000)%Z ->
  let x := Q2Qc (inject_Z a) in
  let d := Q2Qc (inject_Z b) in
  exists g0 g1 J : Qc,
    test1.g_func (<[key := [x]]> config) key = Some [g0]
    /\ test1.g_func (<[key := [(x + d)%Qc]]> config) key = Some [g1]
    /\ test1.grad_g (<[key := [x]]> config) key = Some [[J]]
    /\ g0 = (x * x - Q2Qc 5)%Qc
    /\ J = (Q2Qc 2 * x)%Qc
    /\ g1 = (g0 + J * d + d * d)%Qc.
Proof.
  intros _ _ x d.
  exists (x * x - Q2Qc 5)%Qc, ((x + d) * (x + d) - Q2Qc 5)%Qc, (Q2Qc 2 * x)%Qc.
  unfold test1.g_func, test1.grad_g. rewrite !lookup_insert_eq. simpl.
  repeat split; try reflexivity.
  rewrite Qc_two. ring.
Qed.

Lemma grad_g_is_gradient_of_g_func_witness :
  (Z.abs 1 <= 1000000)%Z /\ (Z.abs 2 <= 1000000)%Z /\
  exists g0 g1 J : Qc,
    test1.g_func (<["x" := [Q2Qc 1]]> ∅) "x" = Some [g0]
    /\ test1.g_func (<["x" := [(Q2Qc 1 + Q2Qc 2)%Qc]]> ∅) "x" = Some [g1]
    /\ test1.grad_g (<["x" := [Q2Qc 1]]> ∅) "x" = Some [[J]]
    /\ g0 = (Q2Qc 1 * Q2Qc 1 - Q2Qc 5)%Qc
    /\ J = (Q2Qc 2 * Q2Qc 1)%Qc
    /\ g1 = (g0 + J * Q2Qc 2 + Q2Qc 2 * Q2Qc 2)%Qc.
Proof.
  assert (H1 : (Z.abs 1 <= 1000000)%Z) by (simpl; lia).
  assert (H2 : (Z.abs 2 <= 1000000)%Z) by (simpl; lia).
  split; [exact H1|]. split; [exact H2|].
  exact (grad_g_is_gradient_of_g_func "x" 1 2 ∅ H1 H2).
Defined.

End TestFunctions.

(** ** The near-antipodal threshold of Logmap *)

Section LogmapThresholds.
Local Open Scope R_scope.

(** X14: the jump at the near-antipodal threshold: a unit quaternion in the
    general branch, down to w = NearlyNegativeOne itself, has a Logmap of norm
    at least 2.8e-5, while a unit quaternion whose scalar part is below
    NearlyNegativeOne has a Logmap of norm 0. *)
Theorem Logmap_threshold_jump (q : Quaternion) :
  isUnit q ->
  (regime (qw q) = General -> 2.8e-5 <= norm (Logmap q))
  /\ (qw q < NearlyNegativeOne -> norm (Logmap q) = 0).
Proof.
  intros Hu. split.
  - intros Hr. apply regime_General in Hr.
    destruct (Logmap_general_norm q Hu Hr) as [E _]. rewrite E.
    assert (Habs : 0 <= Rabs (qw q) <= NearlyOne).
    { split; [apply Rabs_pos|]. apply Rabs_le.
      unfold NearlyNegativeOne, NearlyOne in *. lra. }
    unfold NearlyOne in Habs. set (a := Rabs (qw q)) in *.
    pose proof (acos_bound_lt a ltac:(lra)) as [Ha0 Ha1].
    pose proof (sqrt_1_minus_sqr_acos a ltac:(lra)) as Hsin.
    pose proof (sin_lt_x (acos a) Ha0) as Hlt.
    assert (Hs : 1.4e-5 <= sqrt (1 - a * a)).
    { rewrite <- (sqrt_square 1.4e-5) by lra. apply sqrt_le_1_alt. nra. }
    lra.
  - intros Ha. destruct q as [w x y z]; simpl in Ha.
    rewrite (Logmap_antipodal_branch w x y z Ha). apply norm_Zero.
Qed.

Lemma Logmap_threshold_jump_witness :
  isUnit (mkQuaternion 0 0 0 1) /\
  2.8e-5 <= norm (Logmap (mkQuaternion 0 0 0 1)).
Proof.
  assert (Hu : isUnit (mkQuaternion 0 0 0 1)) by (unfold isUnit; simpl; lra).
  split; [exact Hu|].
  apply (proj1 (Logmap_threshold_jump _ Hu)). apply regime_General.
  unfold NearlyNegativeOne, NearlyOne; simpl. lra.
Defined.

End LogmapThresholds.
